(** * Elapsed time between two readings of a wrapping millisecond counter

    A shallow embedding of [timeInterval] from [arduino/timeUtil.cpp]:

<<
    unsigned long timeInterval(unsigned long from, unsigned long to) {
      if (from <= to) {
        return to - from;
      }
      else {
        return (4294967295 - from) + to;
      }
    }
>>

    C integers are modelled as [Z] with the conversions and the wrap-around
    of each operation written out.  [unsigned long] is the 32-bit type of
    the Arduino targets.  The literal [4294967295] carries no suffix and
    does not fit a 32-bit [long], so its type is [long long]: the
    arithmetic of the second branch is signed 64-bit arithmetic, whose
    overflow is undefined, and the [return] converts the sum back to
    [unsigned long].  The embedding returns [None] where the C program
    would have no defined result. *)

From Stdlib Require Import ZArith Lia Bool.

Local Open Scope Z_scope.

(** ** The integer types the function computes with *)

Module CInt.

Definition ULONG_BITS : Z := 32.
Definition ULONG_MAX : Z := 4294967295.
Definition LLONG_MIN : Z := -9223372036854775808.
Definition LLONG_MAX : Z := 9223372036854775807.

(** Values of type [unsigned long]. *)
Definition ulong (v : Z) : Prop := 0 <= v <= ULONG_MAX.

Definition ulongb (v : Z) : bool := (0 <=? v) && (v <=? ULONG_MAX).

(** Values of type [long long]. *)
Definition llongb (v : Z) : bool := (LLONG_MIN <=? v) && (v <=? LLONG_MAX).

(** Conversion of an integer value to [unsigned long]: reduction modulo
    [2 ^ ULONG_BITS]. *)
Definition to_ulong (z : Z) : Z := z mod 2 ^ ULONG_BITS.

(** [a - b] and [a + b] at type [unsigned long]: they wrap. *)
Definition ulong_sub (a b : Z) : Z := to_ulong (a - b).
Definition ulong_add (a b : Z) : Z := to_ulong (a + b).

(** A result at type [long long]: defined only when representable. *)
Definition llong_of (z : Z) : option Z :=
  if llongb z then Some z else None.

(** [a - b] and [a + b] at type [long long]. *)
Definition llong_sub (a b : Z) : option Z := llong_of (a - b).
Definition llong_add (a b : Z) : option Z := llong_of (a + b).

End CInt.

(** ** Sequencing of computations that may be undefined *)

Definition ret {A : Type} (a : A) : option A := Some a.

Definition bind {A B : Type} (c : option A) (k : A -> option B) : option B :=
  match c with
  | Some a => k a
  | None => None
  end.

Notation "x <- c ;; k" := (bind c (fun x => k))
  (at level 61, c at next level, right associativity).

(** ** The function *)

Module TimeUtil.
Import CInt.

(** [timeInterval from to]: both arguments are [unsigned long].  The
    comparison and the first subtraction are at type [unsigned long].  In
    the second branch [from] and [to] are converted to [long long] (the
    conversion keeps the value), the difference and the sum are taken
    there, and the result is converted to the return type. *)
Definition timeInterval (from to : Z) : option Z :=
  if from <=? to then
    ret (ulong_sub to from)
  else
    d <- llong_sub 4294967295 from ;;
    s <- llong_add d to ;;
    ret (to_ulong s).

(** The expression of the second branch read entirely at type
    [unsigned long], every operation wrapping at 32 bits: what a
    dialect that types the literal [unsigned long] evaluates. *)
Definition wrap_branch_ulong (from to : Z) : Z :=
  ulong_add (ulong_sub 4294967295 from) to.

(** The expression of the second branch over exact integers. *)
Definition wrap_branch_exact (from to : Z) : Z :=
  (4294967295 - from) + to.

(** The single-expression alternative that the design notes of the
    specification call equivalent: [(to - from) mod 2^32]. *)
Definition timeInterval_modular (from to : Z) : Z :=
  (to - from) mod 2 ^ 32.

End TimeUtil.

Import CInt TimeUtil.

(** ** Facts about the integer types *)

Lemma ULONG_MAX_eq : ULONG_MAX = 2 ^ ULONG_BITS - 1.
Proof. reflexivity. Qed.

Lemma ulongb_spec (v : Z) : ulongb v = true <-> ulong v.
Proof.
  unfold ulongb, ulong.
  rewrite andb_true_iff, !Z.leb_le. reflexivity.
Qed.

Lemma to_ulong_range (z : Z) : ulong (to_ulong z).
Proof.
  unfold ulong, to_ulong, ULONG_MAX, ULONG_BITS.
  assert (H : 0 <= z mod 2 ^ 32 < 2 ^ 32) by (apply Z.mod_pos_bound; reflexivity).
  change (2 ^ 32) with 4294967296 in H. change (2 ^ 32) with 4294967296.
  lia.
Qed.

Lemma to_ulong_small (z : Z) : ulong z -> to_ulong z = z.
Proof.
  unfold ulong, to_ulong, ULONG_MAX, ULONG_BITS. intros Hz.
  apply Z.mod_small. change (2 ^ 32) with 4294967296. lia.
Qed.

Lemma llong_of_defined (z : Z) :
  LLONG_MIN <= z <= LLONG_MAX -> llong_of z = Some z.
Proof.
  intros [Hlo Hhi]. unfold llong_of, llongb.
  apply Z.leb_le in Hlo. apply Z.leb_le in Hhi.
  rewrite Hlo, Hhi. reflexivity.
Qed.

(** Closes a goal [ulong c] for a literal [c]. *)
Ltac ulong_lit := unfold ulong, ULONG_MAX; lia.

(** ** The two branches of [timeInterval] *)

Lemma timeInterval_then (from to : Z) :
  from <= to -> timeInterval from to = Some (to_ulong (to - from)).
Proof.
  intros Hle. unfold timeInterval.
  apply Z.leb_le in Hle. rewrite Hle. reflexivity.
Qed.

Lemma timeInterval_else (from to : Z) :
  ulong from -> ulong to -> to < from ->
  timeInterval from to = Some (to_ulong (wrap_branch_exact from to)).
Proof.
  unfold ulong, ULONG_MAX. intros Hf Ht Hgt. unfold timeInterval.
  apply Z.leb_gt in Hgt. rewrite Hgt.
  unfold llong_sub. rewrite llong_of_defined by (unfold LLONG_MIN, LLONG_MAX; lia).
  cbn [bind]. unfold llong_add.
  rewrite llong_of_defined by (unfold LLONG_MIN, LLONG_MAX; lia).
  reflexivity.
Qed.

Lemma wrap_branch_exact_range (from to : Z) :
  ulong from -> ulong to -> to < from ->
  0 <= wrap_branch_exact from to <= ULONG_MAX - 1.
Proof.
  unfold ulong, wrap_branch_exact, ULONG_MAX. lia.
Qed.

Lemma wrap_branch_ulong_exact (from to : Z) :
  ulong from -> ulong to -> to < from ->
  wrap_branch_ulong from to = wrap_branch_exact from to.
Proof.
  intros Hf Ht Hgt.
  pose proof (wrap_branch_exact_range from to Hf Ht Hgt) as Hr.
  unfold wrap_branch_ulong, ulong_add, ulong_sub.
  rewrite (to_ulong_small (4294967295 - from))
    by (unfold ulong, ULONG_MAX in *; lia).
  apply to_ulong_small.
  unfold wrap_branch_exact, ulong, ULONG_MAX in *. lia.
Qed.

Lemma timeInterval_else_exact (from to : Z) :
  ulong from -> ulong to -> to < from ->
  timeInterval from to = Some (wrap_branch_exact from to).
Proof.
  intros Hf Ht Hgt.
  pose proof (wrap_branch_exact_range from to Hf Ht Hgt) as Hr.
  rewrite timeInterval_else by assumption.
  rewrite to_ulong_small; [reflexivity | unfold ulong, ULONG_MAX in *; lia].
Qed.

Lemma timeInterval_then_exact (from to : Z) :
  ulong from -> ulong to -> from <= to ->
  timeInterval from to = Some (to - from).
Proof.
  intros Hf Ht Hle.
  rewrite timeInterval_then by assumption.
  rewrite to_ulong_small; [reflexivity | unfold ulong, ULONG_MAX in *; lia].
Qed.

(** Outside the input domain the signed arithmetic of the second branch
    can overflow: the bounds on [from] and [to] are what makes it defined. *)
Example timeInterval_outside_domain : timeInterval (2 ^ 64) 0 = None.
Proof. vm_compute. reflexivity. Qed.

(** ** The first branch: no wrap between the readings *)

(** C1. For every pair of unsigned 32-bit inputs with [from <= to],
    [timeInterval from to] returns exactly [to - from]. *)
Theorem timeInterval_no_wrap (from to : Z) :
  ulong from -> ulong to -> from <= to ->
  timeInterval from to = Some (to - from).
Proof.
  exact (timeInterval_then_exact from to).
Qed.

Lemma timeInterval_no_wrap_witness :
  ulong 4294967290 /\ ulong 4294967295 /\ 4294967290 <= 4294967295 /\
  timeInterval 4294967290 4294967295 = Some 5.
Proof.
  assert (Hf : ulong 4294967290) by ulong_lit.
  assert (Ht : ulong 4294967295) by ulong_lit.
  assert (Hle : 4294967290 <= 4294967295) by lia.
  repeat (split; [assumption |]).
  exact (timeInterval_no_wrap 4294967290 4294967295 Hf Ht Hle).
Defined.

(** C5. For every unsigned 32-bit value [v], [timeInterval v v] returns
    [0]; the reading [v = 0] is the boundary case [timeInterval 0 0 = 0]. *)
Theorem timeInterval_same (v : Z) :
  ulong v -> timeInterval v v = Some 0.
Proof.
  intros Hv. rewrite timeInterval_then_exact by (assumption || lia).
  f_equal. lia.
Qed.

Lemma timeInterval_same_witness :
  ulong 0 /\ timeInterval 0 0 = Some 0.
Proof.
  assert (Hv : ulong 0) by ulong_lit.
  split; [assumption | exact (timeInterval_same 0 Hv)].
Defined.

(** C7. For a fixed [from], on the range [from <= to <= 2^32 - 1] where
    the first branch is taken, [timeInterval from to] is [to - from]: it is
    strictly increasing in [to], and one more tick of [to] gives exactly one
    more tick of result. *)
Theorem timeInterval_increasing_in_to (from to1 to2 : Z) :
  ulong from -> from <= to1 -> to1 < to2 -> to2 <= 2 ^ 32 - 1 ->
  exists r1 r2,
    timeInterval from to1 = Some r1 /\
    timeInterval from to2 = Some r2 /\
    r1 = to1 - from /\ r2 = to2 - from /\ r1 < r2 /\
    timeInterval from (to1 + 1) = Some (r1 + 1).
Proof.
  intros Hf H1 H12 H2. change (2 ^ 32 - 1) with ULONG_MAX in H2.
  assert (Hu1 : ulong to1) by (unfold ulong in *; lia).
  assert (Hu2 : ulong to2) by (unfold ulong in *; lia).
  assert (Hu1' : ulong (to1 + 1)) by (unfold ulong in *; lia).
  exists (to1 - from), (to2 - from).
  rewrite !timeInterval_then_exact by (assumption || lia).
  repeat split; try lia. f_equal. lia.
Qed.

Lemma timeInterval_increasing_in_to_witness :
  ulong 10 /\ 10 <= 11 /\ 11 < 13 /\ 13 <= 2 ^ 32 - 1 /\
  exists r1 r2,
    timeInterval 10 11 = Some r1 /\
    timeInterval 10 13 = Some r2 /\
    r1 = 11 - 10 /\ r2 = 13 - 10 /\ r1 < r2 /\
    timeInterval 10 (11 + 1) = Some (r1 + 1).
Proof.
  assert (Hf : ulong 10) by ulong_lit.
  assert (H1 : 10 <= 11) by lia.
  assert (H12 : 11 < 13) by lia.
  assert (H2 : 13 <= 2 ^ 32 - 1) by (vm_compute; discriminate).
  repeat (split; [assumption |]).
  exact (timeInterval_increasing_in_to 10 11 13 Hf H1 H12 H2).
Defined.

(** ** The second branch: one wrap between the readings *)

(** C2. For every pair of unsigned 32-bit inputs with [from > to],
    [timeInterval from to] returns exactly [(2^32 - 1 - from) + to]. *)
Theorem timeInterval_wrap (from to : Z) :
  ulong from -> ulong to -> from > to ->
  timeInterval from to = Some ((2 ^ 32 - 1 - from) + to).
Proof.
  intros Hf Ht Hgt. apply timeInterval_else_exact; assumption || lia.
Qed.

Lemma timeInterval_wrap_witness :
  ulong 4294967290 /\ ulong 4 /\ 4294967290 > 4 /\
  timeInterval 4294967290 4 = Some 9.
Proof.
  assert (Hf : ulong 4294967290) by ulong_lit.
  assert (Ht : ulong 4) by ulong_lit.
  assert (Hgt : 4294967290 > 4) by lia.
  repeat (split; [assumption |]).
  exact (timeInterval_wrap 4294967290 4 Hf Ht Hgt).
Defined.

(** C6. At [from = 2^32 - 1] and [to = 0], [timeInterval] returns [0]. *)
Theorem timeInterval_max_zero :
  timeInterval (2 ^ 32 - 1) 0 = Some 0.
Proof.
  vm_compute. reflexivity.
Qed.

(** C9. In the second branch ([from > to]) the expression
    [(4294967295 - from) + to] does not wrap: the difference and the sum
    over exact integers are unsigned 32-bit values, the sum is at most
    [2^32 - 2], evaluating every operation at 32 bits gives that same
    value, and it is what [timeInterval] returns. *)
Theorem timeInterval_wrap_no_overflow (from to : Z) :
  ulong from -> ulong to -> from > to ->
  0 <= 4294967295 - from <= 2 ^ 32 - 1 /\
  0 <= (4294967295 - from) + to <= 2 ^ 32 - 2 /\
  wrap_branch_ulong from to = (4294967295 - from) + to /\
  timeInterval from to = Some ((4294967295 - from) + to).
Proof.
  intros Hf Ht Hgt. assert (Hlt : to < from) by lia.
  pose proof (wrap_branch_exact_range from to Hf Ht Hlt) as Hr.
  pose proof (wrap_branch_ulong_exact from to Hf Ht Hlt) as Hw.
  pose proof (timeInterval_else_exact from to Hf Ht Hlt) as He.
  unfold wrap_branch_exact, ulong, ULONG_MAX in *.
  change (2 ^ 32 - 1) with 4294967295. change (2 ^ 32 - 2) with 4294967294.
  repeat split; try assumption; lia.
Qed.

Lemma timeInterval_wrap_no_overflow_witness :
  ulong 4294967295 /\ ulong 4294967294 /\ 4294967295 > 4294967294 /\
  wrap_branch_ulong 4294967295 4294967294 = 4294967294 /\
  timeInterval 4294967295 4294967294 = Some 4294967294.
Proof.
  assert (Hf : ulong 4294967295) by ulong_lit.
  assert (Ht : ulong 4294967294) by ulong_lit.
  assert (Hgt : 4294967295 > 4294967294) by lia.
  repeat (split; [assumption |]).
  exact (proj2 (proj2
    (timeInterval_wrap_no_overflow 4294967295 4294967294 Hf Ht Hgt))).
Defined.

(** ** Both branches together *)

(** C8. [timeInterval] is total on its input domain: every pair of
    unsigned 32-bit integers has a defined result; no operation of either
    branch is undefined there. *)
Theorem timeInterval_total (from to : Z) :
  ulong from -> ulong to ->
  exists r, timeInterval from to = Some r.
Proof.
  intros Hf Ht. destruct (Z_le_gt_dec from to) as [Hle | Hgt].
  - exists (to - from). apply timeInterval_then_exact; assumption.
  - exists (wrap_branch_exact from to).
    apply timeInterval_else_exact; assumption || lia.
Qed.

Lemma timeInterval_total_witness :
  ulong 4294967295 /\ ulong 0 /\
  exists r, timeInterval 4294967295 0 = Some r.
Proof.
  assert (Hf : ulong 4294967295) by ulong_lit.
  assert (Ht : ulong 0) by ulong_lit.
  repeat (split; [assumption |]).
  exact (timeInterval_total 4294967295 0 Hf Ht).
Defined.

(** C4. For every pair of unsigned 32-bit inputs the value that
    [timeInterval] returns is a non-negative tick count in the range
    [0 .. 2^32 - 1]. *)
Theorem timeInterval_range (from to : Z) :
  ulong from -> ulong to ->
  exists r, timeInterval from to = Some r /\ 0 <= r <= 2 ^ 32 - 1.
Proof.
  intros Hf Ht. change (2 ^ 32 - 1) with ULONG_MAX.
  destruct (Z_le_gt_dec from to) as [Hle | Hgt].
  - exists (to_ulong (to - from)). split.
    + apply timeInterval_then; assumption.
    + apply to_ulong_range.
  - exists (to_ulong (wrap_branch_exact from to)). split.
    + apply timeInterval_else; assumption || lia.
    + apply to_ulong_range.
Qed.

Lemma timeInterval_range_witness :
  ulong 1 /\ ulong 0 /\
  exists r, timeInterval 1 0 = Some r /\ 0 <= r <= 2 ^ 32 - 1.
Proof.
  assert (Hf : ulong 1) by ulong_lit.
  assert (Ht : ulong 0) by ulong_lit.
  repeat (split; [assumption |]).
  exact (timeInterval_range 1 0 Hf Ht).
Defined.

(** C10. For every pair of distinct unsigned 32-bit inputs the two
    directions add up, over exact integers, to the counter maximum:
    [timeInterval from to + timeInterval to from = 2^32 - 1]. *)
Theorem timeInterval_both_directions (from to : Z) :
  ulong from -> ulong to -> from <> to ->
  exists a b,
    timeInterval from to = Some a /\
    timeInterval to from = Some b /\
    a + b = 2 ^ 32 - 1.
Proof.
  intros Hf Ht Hne. change (2 ^ 32 - 1) with 4294967295.
  destruct (Z_le_gt_dec from to) as [Hle | Hgt].
  - exists (to - from), (wrap_branch_exact to from). repeat split.
    + apply timeInterval_then_exact; assumption.
    + apply timeInterval_else_exact; assumption || lia.
    + unfold wrap_branch_exact. lia.
  - exists (wrap_branch_exact from to), (from - to). repeat split.
    + apply timeInterval_else_exact; assumption || lia.
    + apply timeInterval_then_exact; assumption || lia.
    + unfold wrap_branch_exact. lia.
Qed.

Lemma timeInterval_both_directions_witness :
  ulong 4294967290 /\ ulong 4 /\ 4294967290 <> 4 /\
  exists a b,
    timeInterval 4294967290 4 = Some a /\
    timeInterval 4 4294967290 = Some b /\
    a + b = 2 ^ 32 - 1.
Proof.
  assert (Hf : ulong 4294967290) by ulong_lit.
  assert (Ht : ulong 4) by ulong_lit.
  assert (Hne : 4294967290 <> 4) by discriminate.
  repeat (split; [assumption |]).
  exact (timeInterval_both_directions 4294967290 4 Hf Ht Hne).
Defined.

(** ** Comparison with modular subtraction *)

(** In the first branch the function is modular subtraction. *)
Lemma timeInterval_then_modular (from to : Z) :
  from <= to ->
  timeInterval from to = Some (timeInterval_modular from to).
Proof.
  intros Hle. rewrite timeInterval_then by assumption. reflexivity.
Qed.

(** In the second branch it is one tick short of modular subtraction. *)
Lemma timeInterval_else_modular (from to : Z) :
  ulong from -> ulong to -> to < from ->
  timeInterval from to = Some (timeInterval_modular from to - 1).
Proof.
  intros Hf Ht Hgt. rewrite timeInterval_else_exact by assumption.
  f_equal. unfold timeInterval_modular, wrap_branch_exact.
  change (2 ^ 32) with 4294967296.
  rewrite <- (Z.mod_unique (to - from) 4294967296 (-1) (to - from + 4294967296))
    by (unfold ulong, ULONG_MAX in *; lia).
  lia.
Qed.

(** The tick on which the counter wraps is not counted: the reading taken
    at the counter maximum and the reading taken one tick later, at zero,
    give the same interval. *)
Lemma timeInterval_wrap_tick_lost (from : Z) :
  ulong from -> 0 < from ->
  timeInterval from 4294967295 = timeInterval from 0.
Proof.
  intros Hf Hpos.
  rewrite timeInterval_then_exact
    by (assumption || unfold ulong, ULONG_MAX in *; lia).
  rewrite timeInterval_else_exact
    by (assumption || unfold ulong, ULONG_MAX in *; lia).
  unfold wrap_branch_exact. f_equal. lia.
Qed.

(** C3. The branching [timeInterval] against the single expression
    [(to - from) mod 2^32]: at [from = 2^32 - 1], [to = 0] the function
    returns [0] where the modular expression is [1], so the two are not
    equal on every pair of unsigned 32-bit inputs. *)
Theorem timeInterval_modular_differs :
  ulong 4294967295 /\ ulong 0 /\
  timeInterval 4294967295 0 = Some 0 /\
  timeInterval_modular 4294967295 0 = 1.
Proof.
  repeat split; try (vm_compute; reflexivity); vm_compute; discriminate.
Qed.


(** ** Further properties of [timeInterval] *)

(** The branch taken and the value returned, over exact integers. *)
Lemma timeInterval_cases (from to : Z) :
  ulong from -> ulong to ->
  (from <= to /\ timeInterval from to = Some (to - from)) \/
  (to < from /\ timeInterval from to = Some (4294967295 - from + to)).
Proof.
  intros Hf Ht. destruct (Z_le_gt_dec from to) as [Hle | Hgt].
  - left. split; [assumption | apply timeInterval_then_exact; assumption].
  - right. split; [lia |].
    apply (timeInterval_else_exact from to); assumption || lia.
Qed.

(** Modular subtraction of two [unsigned long] values, by cases. *)
Lemma timeInterval_modular_cases (from to : Z) :
  ulong from -> ulong to ->
  (from <= to /\ timeInterval_modular from to = to - from) \/
  (to < from /\ timeInterval_modular from to = to - from + 4294967296).
Proof.
  unfold ulong, ULONG_MAX, timeInterval_modular. intros Hf Ht.
  change (2 ^ 32) with 4294967296.
  destruct (Z_le_gt_dec from to) as [Hle | Hgt].
  - left. split; [assumption | apply Z.mod_small; lia].
  - right. split; [lia |]. symmetry.
    apply (Z.mod_unique (to - from) 4294967296 (-1)); lia.
Qed.

(** Adding a multiple of [2^32] does not change the [unsigned long] value. *)
Lemma to_ulong_add_modulus (z : Z) : to_ulong (z + 4294967296) = to_ulong z.
Proof.
  unfold to_ulong, ULONG_BITS. change (2 ^ 32) with 4294967296.
  replace (z + 4294967296) with (z + 1 * 4294967296) by lia.
  apply Z.mod_add. discriminate.
Qed.

(** Two defined results are equal when their values are. *)
Lemma Some_eq_inv (a b : Z) : Some a = Some b -> a = b.
Proof. intros H. injection H as H. exact H. Qed.

(** Case analysis on the branch that [timeInterval from to] takes, rewriting
    the call with its value. *)
Ltac interval_cases from to Hf Ht :=
  let Hb := fresh "Hbranch" in
  let He := fresh "Hval" in
  destruct (timeInterval_cases from to Hf Ht) as [[Hb He] | [Hb He]];
  rewrite He in *; clear He.

Ltac ulong_bounds := unfold ulong, ULONG_MAX in *.

(** X1. On every pair of unsigned 32-bit inputs [timeInterval from to] is
    the modular difference [(to - from) mod 2^32] when [from <= to], and
    one less than it when [from > to]. *)
Theorem timeInterval_vs_modular (from to : Z) :
  ulong from -> ulong to ->
  timeInterval from to =
  Some (timeInterval_modular from to - (if from <=? to then 0 else 1)).
Proof.
  intros Hf Ht.
  destruct (Z.leb_spec from to) as [Hle | Hgt].
  - rewrite timeInterval_then_modular by assumption. f_equal. lia.
  - rewrite timeInterval_else_modular by assumption. reflexivity.
Qed.

Lemma timeInterval_vs_modular_witness :
  ulong 7 /\ ulong 3 /\
  timeInterval 7 3 = Some (timeInterval_modular 7 3 - 1).
Proof.
  assert (Hf : ulong 7) by ulong_lit.
  assert (Ht : ulong 3) by ulong_lit.
  repeat (split; [assumption |]).
  exact (timeInterval_vs_modular 7 3 Hf Ht).
Defined.

(** X2. For a fixed [from], two different readings [to1 < to2] give the
    same interval exactly when [to1 = 0], [to2 = 2^32 - 1] and [from > 0]:
    the interval tells the readings apart except across the tick on which
    the counter wraps. *)
Theorem timeInterval_same_interval (from to1 to2 : Z) :
  ulong from -> ulong to1 -> ulong to2 -> to1 < to2 ->
  (timeInterval from to1 = timeInterval from to2 <->
   to1 = 0 /\ to2 = 4294967295 /\ 0 < from).
Proof.
  intros Hf H1 H2 Hlt.
  interval_cases from to1 Hf H1; interval_cases from to2 Hf H2;
    ulong_bounds; split; intros H;
    try (apply Some_eq_inv in H); try lia; f_equal; lia.
Qed.

Lemma timeInterval_same_interval_witness :
  ulong 5 /\ ulong 0 /\ ulong 4294967295 /\ 0 < 4294967295 /\
  (timeInterval 5 0 = timeInterval 5 4294967295 <->
   0 = 0 /\ 4294967295 = 4294967295 /\ 0 < 5).
Proof.
  assert (Hf : ulong 5) by ulong_lit.
  assert (H1 : ulong 0) by ulong_lit.
  assert (H2 : ulong 4294967295) by ulong_lit.
  assert (Hlt : 0 < 4294967295) by lia.
  repeat (split; [assumption |]).
  exact (timeInterval_same_interval 5 0 4294967295 Hf H1 H2 Hlt).
Defined.



(** X4. [timeInterval from to] is [0] exactly when the two readings are
    equal or [from = 2^32 - 1] and [to = 0]. *)
Theorem timeInterval_zero_result (from to : Z) :
  ulong from -> ulong to ->
  (timeInterval from to = Some 0 <->
   from = to \/ (from = 4294967295 /\ to = 0)).
Proof.
  intros Hf Ht.
  interval_cases from to Hf Ht; ulong_bounds; split; intros H;
    try (apply Some_eq_inv in H); try lia; f_equal; lia.
Qed.

Lemma timeInterval_zero_result_witness :
  ulong 4294967295 /\ ulong 0 /\
  (timeInterval 4294967295 0 = Some 0 <->
   4294967295 = 0 \/ (4294967295 = 4294967295 /\ 0 = 0)).
Proof.
  assert (Hf : ulong 4294967295) by ulong_lit.
  assert (Ht : ulong 0) by ulong_lit.
  repeat (split; [assumption |]).
  exact (timeInterval_zero_result 4294967295 0 Hf Ht).
Defined.

(** X5. Intervals compose: for three readings [a], [b], [c] taken in this
    order around the counter with at most one wrap among them
    ([a <= b <= c], or [b <= c < a], or [c < a <= b]), the interval from
    [a] to [b] plus the interval from [b] to [c] is, over exact integers,
    the interval from [a] to [c]. *)
Theorem timeInterval_compose (a b c : Z) :
  ulong a -> ulong b -> ulong c ->
  (a <= b <= c) \/ (b <= c < a) \/ (c < a <= b) ->
  exists x y z,
    timeInterval a b = Some x /\
    timeInterval b c = Some y /\
    timeInterval a c = Some z /\
    x + y = z.
Proof.
  intros Ha Hb Hc Hord.
  interval_cases a b Ha Hb; interval_cases b c Hb Hc;
    interval_cases a c Ha Hc;
    eexists; eexists; eexists;
    (split; [reflexivity |]); (split; [reflexivity |]);
    (split; [reflexivity |]); lia.
Qed.

Lemma timeInterval_compose_witness :
  ulong 4294967290 /\ ulong 4294967294 /\ ulong 4 /\
  ((4294967290 <= 4294967294 <= 4) \/ (4294967294 <= 4 < 4294967290) \/
   (4 < 4294967290 <= 4294967294)) /\
  exists x y z,
    timeInterval 4294967290 4294967294 = Some x /\
    timeInterval 4294967294 4 = Some y /\
    timeInterval 4294967290 4 = Some z /\
    x + y = z.
Proof.
  assert (Ha : ulong 4294967290) by ulong_lit.
  assert (Hb : ulong 4294967294) by ulong_lit.
  assert (Hc : ulong 4) by ulong_lit.
  assert (Hord : (4294967290 <= 4294967294 <= 4) \/
                 (4294967294 <= 4 < 4294967290) \/
                 (4 < 4294967290 <= 4294967294)) by lia.
  repeat (split; [assumption |]).
  exact (timeInterval_compose 4294967290 4294967294 4 Ha Hb Hc Hord).
Defined.

(** X6. Adding the interval back to [from] in [unsigned long] arithmetic
    gives [to] when [from <= to], and the tick before [to] (wrapping, so
    [2^32 - 1] for [to = 0]) when [from > to]. *)
Theorem timeInterval_add_back (from to : Z) :
  ulong from -> ulong to ->
  exists r,
    timeInterval from to = Some r /\
    ulong_add from r = if from <=? to then to else ulong_sub to 1.
Proof.
  intros Hf Ht. interval_cases from to Hf Ht; eexists; (split; [reflexivity |]).
  - apply Z.leb_le in Hbranch. rewrite Hbranch. unfold ulong_add.
    replace (from + (to - from)) with to by lia.
    apply to_ulong_small. assumption.
  - apply Z.leb_gt in Hbranch. rewrite Hbranch. unfold ulong_add, ulong_sub.
    replace (from + (4294967295 - from + to)) with (to - 1 + 4294967296)
      by lia.
    apply to_ulong_add_modulus.
Qed.

Lemma timeInterval_add_back_witness :
  ulong 4294967290 /\ ulong 4 /\
  exists r,
    timeInterval 4294967290 4 = Some r /\
    ulong_add 4294967290 r = ulong_sub 4 1.
Proof.
  assert (Hf : ulong 4294967290) by ulong_lit.
  assert (Ht : ulong 4) by ulong_lit.
  repeat (split; [assumption |]).
  exact (timeInterval_add_back 4294967290 4 Hf Ht).
Defined.

(** X7. Moving both readings by the same number of ticks [k], with all
    four values unsigned 32-bit (neither reading crosses the wrap), does
    not change the interval. *)
Theorem timeInterval_shift (from to k : Z) :
  ulong from -> ulong to -> ulong (from + k) -> ulong (to + k) ->
  timeInterval (from + k) (to + k) = timeInterval from to.
Proof.
  intros Hf Ht Hfk Htk.
  interval_cases from to Hf Ht; interval_cases (from + k) (to + k) Hfk Htk;
    try lia; f_equal; lia.
Qed.

Lemma timeInterval_shift_witness :
  ulong 100 /\ ulong 7 /\ ulong (100 + -5) /\ ulong (7 + -5) /\
  timeInterval (100 + -5) (7 + -5) = timeInterval 100 7.
Proof.
  assert (Hf : ulong 100) by ulong_lit.
  assert (Ht : ulong 7) by ulong_lit.
  assert (Hfk : ulong (100 + -5)) by ulong_lit.
  assert (Htk : ulong (7 + -5)) by ulong_lit.
  repeat (split; [assumption |]).
  exact (timeInterval_shift 100 7 (-5) Hf Ht Hfk Htk).
Defined.

(** X8. For a fixed [from], the result never decreases as the true
    elapsed time grows: if [to1] is no further from [from] around the
    counter than [to2] (in modular distance), the interval to [to1] is at
    most the interval to [to2]. *)
Theorem timeInterval_monotone_in_elapsed (from to1 to2 : Z) :
  ulong from -> ulong to1 -> ulong to2 ->
  timeInterval_modular from to1 <= timeInterval_modular from to2 ->
  exists r1 r2,
    timeInterval from to1 = Some r1 /\
    timeInterval from to2 = Some r2 /\
    r1 <= r2.
Proof.
  intros Hf H1 H2 Hm.
  destruct (timeInterval_modular_cases from to1 Hf H1) as [[? E1] | [? E1]];
    destruct (timeInterval_modular_cases from to2 Hf H2) as [[? E2] | [? E2]];
    rewrite E1, E2 in Hm; clear E1 E2;
    interval_cases from to1 Hf H1; interval_cases from to2 Hf H2;
    try lia;
    eexists; eexists; (split; [reflexivity |]); (split; [reflexivity |]);
    ulong_bounds; lia.
Qed.

Lemma timeInterval_monotone_in_elapsed_witness :
  ulong 10 /\ ulong 4294967295 /\ ulong 3 /\
  timeInterval_modular 10 4294967295 <= timeInterval_modular 10 3 /\
  exists r1 r2,
    timeInterval 10 4294967295 = Some r1 /\
    timeInterval 10 3 = Some r2 /\
    r1 <= r2.
Proof.
  assert (Hf : ulong 10) by ulong_lit.
  assert (H1 : ulong 4294967295) by ulong_lit.
  assert (H2 : ulong 3) by ulong_lit.
  assert (Hm : timeInterval_modular 10 4294967295 <= timeInterval_modular 10 3)
    by (vm_compute; discriminate).
  repeat (split; [assumption |]).
  exact (timeInterval_monotone_in_elapsed 10 4294967295 3 Hf H1 H2 Hm).
Defined.
